(** * Segmented button: a model of [segmented-button.tsx]

    The component consists of a group container [SegmentedButton], which
    owns or receives the selected identifier and publishes it through a
    React context, and of [SegmentedButtonItem] controls that read the
    context, compute their active / disabled state and render a host
    [<button>].

    The model keeps the shape of the source:
    - props are records whose optional fields are [option]s
      ([None] is JavaScript's [undefined]);
    - the single [useState] cell of the group is threaded explicitly;
    - event handlers run in a small state-and-log monad [M]; the log
      records every entry into the shared change function and every call
      of a function supplied by the integrator;
    - the props object handed to the host [<button>] is a finite map from
      attribute names to values, and the trailing [{...props}] of the
      source is a left-biased union in which the pass-through props win.

    Class names, refs and the children of the elements are presentational
    and are not modelled. *)

From stdpp Require Import base option strings gmap list.

Local Open Scope string_scope.

(** ** JavaScript truthiness of optional boolean props *)

Module Js.

(** [!!b] for [b : boolean | undefined]. *)
Definition truthy (b : option bool) : bool := default false b.

(** [a || b] on [boolean | undefined]: the left operand when it is truthy,
    the right operand otherwise. *)
Definition or (a b : option bool) : option bool :=
  if truthy a then a else b.

End Js.

(** ** Hook state, events and the handler monad *)

(** The state cell created by [React.useState(defaultValue)]. *)
Record HookState := { uncontrolledValue : string }.

(** A function supplied by the integrator, known to the component only by
    reference. *)
Inductive Callback := ExternalFn (name : string).

Inductive Event :=
| ChangeRequested (newValue : string)       (* [handleValueChange] entered *)
| ExternalCall (f : Callback) (arg : string) (* [f(arg)] *)
| ExternalClick (f : Callback).              (* a pass-through [onClick] ran *)

Definition M (A : Type) : Type := HookState → A * HookState * list Event.

#[global] Instance M_ret : MRet M := λ A a s, (a, s, []).

#[global] Instance M_bind : MBind M := λ A B k m s,
  let '(a, s1, l1) := m s in
  let '(b, s2, l2) := k a s1 in
  (b, s2, (l1 ++ l2)%list).

Definition emit (e : Event) : M unit := λ s, (tt, s, [e]).

(** The setter returned by [useState]: the value is what the next render
    reads. *)
Definition setUncontrolledValue (v : string) : M unit :=
  λ _, (tt, {| uncontrolledValue := v |}, []).

Definition stateAfter {A} (m : M A) (s : HookState) : HookState := (m s).1.2.
Definition logOf {A} (m : M A) (s : HookState) : list Event := (m s).2.

(** ** Props *)

Inductive Variant := primary | secondary.
Inductive Size := size_default | sm | lg.

(** [SegmentedButtonProps]. *)
Module Props.
Record t := {
  variant : option Variant;
  size : option Size;
  defaultValue : option string;
  value : option string;
  onValueChange : option Callback;
  disabled : option bool;
}.
End Props.

(** [SegmentedButtonContextType]. *)
Module Ctx.
Record t := {
  selectedValue : string;
  onValueChange : string → M unit;
  variant : Variant;
  disabled : option bool;
}.
End Ctx.

(** Values of the props of a host element. *)
Inductive PropValue :=
| VUndefined
| VBool (b : bool)
| VString (s : string)
| VHandler (h : M unit).

(** [SegmentedButtonItemProps]: [value] and [label] are declared by the
    component, [disabled] and everything in [attrs] are inherited from
    [React.ButtonHTMLAttributes]. *)
Module Item.
Record t := {
  value : string;
  label : option string;
  disabled : option bool;
  attrs : gmap string PropValue;
}.
End Item.

(** ** The group container *)

Section SegmentedButton.
Variable p : Props.t.

(** [const [uncontrolledValue, _] = React.useState(defaultValue)] on the
    first render, with the destructuring default [defaultValue = ""]. *)
Definition mount : HookState :=
  {| uncontrolledValue := default "" (Props.defaultValue p) |}.

(** [controlledValue !== undefined] *)
Definition isControlled : bool :=
  match Props.value p with Some _ => true | None => false end.

(** [isControlled ? controlledValue : uncontrolledValue] *)
Definition selectedValue (st : HookState) : string :=
  match Props.value p with
  | Some controlledValue => controlledValue
  | None => uncontrolledValue st
  end.

Definition handleValueChange (newValue : string) : M unit :=
  emit (ChangeRequested newValue) ;;
  (if negb isControlled then setUncontrolledValue newValue else mret tt) ;;
  (* onValueChange?.(newValue) *)
  match Props.onValueChange p with
  | Some f => emit (ExternalCall f newValue)
  | None => mret tt
  end.

(** The value handed to [SegmentedButtonContext.Provider]. *)
Definition contextValue (st : HookState) : Ctx.t :=
  {| Ctx.selectedValue := selectedValue st;
     Ctx.onValueChange := handleValueChange;
     Ctx.variant := default primary (Props.variant p);
     Ctx.disabled := Props.disabled p |}.
End SegmentedButton.

(** ** The segment item *)

Inductive Error := UsageError (message : string).

Definition useSegmentedButtonContext (context : option Ctx.t) : Error + Ctx.t :=
  match context with
  | None => inl (UsageError "SegmentedButtonItem must be used within SegmentedButton")
  | Some context => inr context
  end.

(** The names bound by the parameter destructuring
    [{ className, value, label, children, disabled, ...props }]; the rest
    object [props] holds every other incoming prop. *)
Definition destructured : list string :=
  ["className"; "value"; "label"; "children"; "disabled"].

(** React keeps [key] and [ref] for itself: neither is among the props
    that the component function receives. *)
Definition reserved : list string := ["key"; "ref"].

Definition receivedProps (item : Item.t) : gmap string PropValue :=
  foldr delete (Item.attrs item) reserved.

Definition restProps (item : Item.t) : gmap string PropValue :=
  foldr delete (receivedProps item) destructured.

Definition ofFlag (b : option bool) : PropValue :=
  match b with Some b => VBool b | None => VUndefined end.

Section Item.
Variable context : Ctx.t.
Variable item : Item.t.

(** [selectedValue === value] *)
Definition isSelected : bool :=
  bool_decide (Ctx.selectedValue context = Item.value item).

(** [disabled || groupDisabled] *)
Definition isDisabled : option bool :=
  Js.or (Item.disabled item) (Ctx.disabled context).

Definition handleClick : M unit :=
  if negb (Js.truthy isDisabled)
  then Ctx.onValueChange context (Item.value item)
  else mret tt.

(** The attributes the component sets on the host [<button>] itself. *)
Definition ownProps : gmap string PropValue :=
  <["type" := VString "button"]>
  (<["role" := VString "radio"]>
  (<["aria-checked" := VBool isSelected]>
  (<["aria-disabled" := ofFlag isDisabled]>
  (<["data-state" := VString (if isSelected then "active" else "inactive")]>
  (<["disabled" := ofFlag isDisabled]>
  (<["onClick" := VHandler handleClick]> ∅)))))).

(** [<button ...own {...props}>]: a later key replaces an earlier one. *)
Definition button : gmap string PropValue := restProps item ∪ ownProps.
End Item.

Definition SegmentedButtonItem (context : option Ctx.t) (item : Item.t)
  : Error + gmap string PropValue :=
  match useSegmentedButtonContext context with
  | inl e => inl e
  | inr context => inr (button context item)
  end.

(** The children of a group are rendered below its provider. *)
Definition SegmentedButton (p : Props.t) (st : HookState) (children : list Item.t)
  : list (Error + gmap string PropValue) :=
  SegmentedButtonItem (Some (contextValue p st)) <$> children.

(** ** The host button *)

(** Whether the host element carries the boolean [disabled] attribute. *)
Definition hostDisabled (el : gmap string PropValue) : bool :=
  match el !! "disabled" with Some (VBool true) => true | _ => false end.

(** A click (pointer, or keyboard activation) on a host button: a disabled
    button dispatches nothing, otherwise its [onClick] handler runs. *)
Definition click (el : gmap string PropValue) : M unit :=
  if hostDisabled el then mret tt
  else match el !! "onClick" with
       | Some (VHandler h) => h
       | _ => mret tt
       end.

(** Activating a segment of a group: a click on the button that the
    current render produced for it. *)
Definition activate (p : Props.t) (item : Item.t) : M unit :=
  λ st, click (button (contextValue p st) item) st.

(** The segments of a list that are active under a context. *)
Definition activeSegments (c : Ctx.t) (items : list Item.t) : list Item.t :=
  filter (λ i, isSelected c i = true) items.

(** Whether a rendered button reports its segment as the active one:
    its [aria-checked] is true, or its [data-state] is "active". *)
Definition reportsActive (el : gmap string PropValue) : bool :=
  match el !! "aria-checked" with
  | Some (VBool b) => b
  | Some (VString s) => String.eqb s "true"
  | _ => false
  end
  || match el !! "data-state" with
     | Some (VString s) => String.eqb s "active"
     | _ => false
     end.

(** The segments of a list whose rendered buttons report active. *)
Definition reportingSegments (c : Ctx.t) (items : list Item.t) : list Item.t :=
  filter (λ i, reportsActive (button c i) = true) items.

(** What [onValueChange?.(v)] leaves in the log. *)
Definition forwarded (f : option Callback) (v : string) : list Event :=
  match f with Some f => [ExternalCall f v] | None => [] end.

(** ** Sample groups and segments

    The groups of the stories: an uncontrolled size picker that starts on
    "medium", and a period picker controlled at "week". *)

Definition segment (value : string) : Item.t :=
  {| Item.value := value; Item.label := None; Item.disabled := None;
     Item.attrs := ∅ |}.

Definition withAttrs (attrs : gmap string PropValue) (item : Item.t) : Item.t :=
  {| Item.value := Item.value item; Item.label := Item.label item;
     Item.disabled := Item.disabled item; Item.attrs := attrs |}.

Definition notifier : Callback := ExternalFn "setSelected".
Definition tracker : Callback := ExternalFn "track".

Definition sizeGroup : Props.t :=
  {| Props.variant := Some primary; Props.size := None;
     Props.defaultValue := Some "medium"; Props.value := None;
     Props.onValueChange := Some notifier; Props.disabled := None |}.

Definition periodGroup : Props.t :=
  {| Props.variant := None; Props.size := None;
     Props.defaultValue := None; Props.value := Some "week";
     Props.onValueChange := Some notifier; Props.disabled := None |}.

Definition bareGroup : Props.t :=
  {| Props.variant := None; Props.size := None;
     Props.defaultValue := None; Props.value := None;
     Props.onValueChange := None; Props.disabled := None |}.

Definition disabledGroup : Props.t :=
  {| Props.variant := Some primary; Props.size := Some size_default;
     Props.defaultValue := Some "medium"; Props.value := None;
     Props.onValueChange := Some notifier; Props.disabled := Some true |}.

(** A segment whose integrator passes an [onClick] of their own. *)
Definition tracked (value : string) : Item.t :=
  withAttrs {[ "onClick" := VHandler (emit (ExternalClick tracker)) ]}
            (segment value).

(** A segment whose integrator pins both indicators to "not selected". *)
Definition pinnedOff (value : string) : Item.t :=
  withAttrs (<["aria-checked" := VBool false]>
             {[ "data-state" := VString "inactive" ]})
            (segment value).

(** A segment whose integrator passes [aria-checked={true}]. *)
Definition pinnedOn (value : string) : Item.t :=
  withAttrs {[ "aria-checked" := VBool true ]} (segment value).

(** A segment whose integrator passes [aria-checked={false}] only. *)
Definition uncheckedAria (value : string) : Item.t :=
  withAttrs {[ "aria-checked" := VBool false ]} (segment value).

(** ** Sessions

    A session is a sequence of activations; each one is a click on the
    button of the render that follows the previous change. *)

Fixpoint activateAll (p : Props.t) (items : list Item.t) : M unit :=
  match items with
  | [] => mret tt
  | item :: items => activate p item ;; activateAll p items
  end.

(** Whether a segment of the group is enabled: neither its own flag nor
    the group's flag is truthy. *)
Definition enabledIn (p : Props.t) (item : Item.t) : bool :=
  negb (Js.truthy (Item.disabled item) || Js.truthy (Props.disabled p)).

(** What one accepted activation leaves in the log. *)
Definition changeLog (p : Props.t) (item : Item.t) : list Event :=
  ChangeRequested (Item.value item)
    :: forwarded (Props.onValueChange p) (Item.value item).

(** ** The stories [Default] and [ControlledState] *)

Definition labelled (value label : string) : Item.t :=
  {| Item.value := value; Item.label := Some label; Item.disabled := None;
     Item.attrs := ∅ |}.

(** The three segments both stories render. *)
Definition storyItems : list Item.t :=
  [labelled "small" "Small"; labelled "medium" "Medium";
   labelled "large" "Large"].

(** The args of [Default]. *)
Definition defaultStory : Props.t :=
  {| Props.variant := Some primary; Props.size := Some size_default;
     Props.defaultValue := Some "medium"; Props.value := None;
     Props.onValueChange := None; Props.disabled := None |}.

(** [ControlledState] keeps [const [selected, setSelected] =
    useState("medium")] above the group; the group keeps its own cell. *)
Record StoryState := { selected : string; group : HookState }.

(** [<SegmentedButton variant="primary" value={selected}
    onValueChange={setSelected}>] *)
Definition controlledStory (selected : string) : Props.t :=
  {| Props.variant := Some primary; Props.size := None;
     Props.defaultValue := None; Props.value := Some selected;
     Props.onValueChange := Some (ExternalFn "setSelected");
     Props.disabled := None |}.

(** The owner's cell after the calls of a handler: [setSelected(v)] stores
    [v], calls of other functions do not touch it. *)
Definition ownerReacts (selected : string) (log : list Event) : string :=
  foldl (λ selected e,
           match e with
           | ExternalCall (ExternalFn f) v =>
               if String.eqb f "setSelected" then v else selected
           | _ => selected
           end) selected log.

Definition storyInit : StoryState :=
  {| selected := "medium"; group := mount (controlledStory "medium") |}.

(** A click on a segment of the story, followed by the re-render. *)
Definition storyClick (s : StoryState) (item : Item.t) : StoryState :=
  let '(_, st, log) := activate (controlledStory (selected s)) item (group s) in
  {| selected := ownerReacts (selected s) log; group := st |}.

Definition storySession (clicks : list Item.t) : StoryState :=
  foldl storyClick storyInit clicks.

(** ** The Storybook configuration: [viteFinal]

    [viteFinal] receives the Vite configuration and returns
    [{...config, server: {...config.server, host: true, strictPort: false}}].
    The configuration is an object whose [server] field is an object of
    server options or is missing; all the other fields are kept in
    [others]. The function is [async]: the model gives the value its
    promise resolves to. *)

#[warnings="-register-all"]
Inductive Json :=
| JNull
| JBool (b : bool)
| JNum (n : Z)
| JStr (s : string)
| JArr (items : list Json)
| JObj (fields : gmap string Json).

Record ViteConfig := {
  server : option (gmap string Json);
  others : gmap string Json;
}.

(** [{...o}] for [o : object | undefined]. *)
Definition spread (o : option (gmap string Json)) : gmap string Json :=
  default ∅ o.

Definition viteFinal (config : ViteConfig) : ViteConfig :=
  {| server :=
       Some (<["strictPort" := JBool false]>
             (<["host" := JBool true]> (spread (server config))));
     others := others config |}.

(** A configuration that asks for a fixed host and port. *)
Definition pinnedServer : ViteConfig :=
  {| server := Some (<["host" := JStr "localhost"]>
                     (<["strictPort" := JBool true]>
                      {[ "port" := JNum 6006 ]}));
     others := {[ "base" := JStr "/" ]} |}.

(** * Properties *)

(** ** The handler monad *)

Lemma handleValueChange_run (p : Props.t) (newValue : string) (st : HookState) :
  handleValueChange p newValue st =
  (tt,
   if isControlled p then st else {| uncontrolledValue := newValue |},
   ChangeRequested newValue :: forwarded (Props.onValueChange p) newValue).
Proof.
  unfold handleValueChange, forwarded.
  destruct (isControlled p), (Props.onValueChange p); reflexivity.
Qed.

(** ** Pass-through props and the rendered button *)

Lemma restProps_destructured (item : Item.t) (k : string) :
  k ∈ destructured → restProps item !! k = None.
Proof.
  unfold restProps, destructured; cbn [foldr]; intros Hk.
  repeat (apply elem_of_cons in Hk as [-> | Hk];
          [ repeat first [ apply lookup_delete_eq
                         | rewrite lookup_delete_ne by discriminate ] | ]).
  by apply elem_of_nil in Hk.
Qed.

Lemma restProps_reserved (item : Item.t) (k : string) :
  k ∈ reserved → restProps item !! k = None.
Proof.
  unfold restProps, receivedProps, destructured, reserved; cbn [foldr].
  intros Hk.
  repeat (apply elem_of_cons in Hk as [-> | Hk];
          [ repeat first [ apply lookup_delete_eq
                         | rewrite lookup_delete_ne by discriminate ] | ]).
  by apply elem_of_nil in Hk.
Qed.

Lemma restProps_other (item : Item.t) (k : string) :
  k ∉ destructured → k ∉ reserved →
  restProps item !! k = Item.attrs item !! k.
Proof.
  unfold restProps, receivedProps, destructured, reserved; cbn [foldr].
  intros Hk Hr.
  repeat (rewrite lookup_delete_ne;
          [ | intros <-; first [ apply Hk; set_solver | apply Hr; set_solver ] ]).
  reflexivity.
Qed.

Lemma ownProps_onClick (c : Ctx.t) (item : Item.t) :
  ownProps c item !! "onClick" = Some (VHandler (handleClick c item)).
Proof. reflexivity. Qed.

Lemma ownProps_aria_checked (c : Ctx.t) (item : Item.t) :
  ownProps c item !! "aria-checked" = Some (VBool (isSelected c item)).
Proof. reflexivity. Qed.

Lemma ownProps_data_state (c : Ctx.t) (item : Item.t) :
  ownProps c item !! "data-state" =
  Some (VString (if isSelected c item then "active" else "inactive")).
Proof. reflexivity. Qed.

Lemma button_own (c : Ctx.t) (item : Item.t) (k : string) :
  restProps item !! k = None → button c item !! k = ownProps c item !! k.
Proof. intros Hk. unfold button. by rewrite lookup_union_r. Qed.

Lemma button_rest (c : Ctx.t) (item : Item.t) (k : string) (v : PropValue) :
  restProps item !! k = Some v → button c item !! k = Some v.
Proof. intros Hk. unfold button. by apply lookup_union_Some_l. Qed.

Lemma button_disabled (c : Ctx.t) (item : Item.t) :
  button c item !! "disabled" = Some (ofFlag (isDisabled c item)).
Proof.
  rewrite button_own; [ reflexivity | ].
  apply restProps_destructured. unfold destructured. set_solver.
Qed.

Lemma hostDisabled_button (c : Ctx.t) (item : Item.t) :
  hostDisabled (button c item) = Js.truthy (isDisabled c item).
Proof.
  unfold hostDisabled. rewrite button_disabled.
  by destruct (isDisabled c item) as [[]|].
Qed.

Lemma truthy_isDisabled (c : Ctx.t) (item : Item.t) :
  Js.truthy (isDisabled c item) =
  Js.truthy (Item.disabled item) || Js.truthy (Ctx.disabled c).
Proof.
  unfold isDisabled, Js.or.
  by destruct (Item.disabled item) as [[]|], (Ctx.disabled c) as [[]|].
Qed.

(** Unless the integrator passes an [onClick], a click runs [handleClick]:
    the host's refusal to dispatch on a disabled button coincides with the
    handler's own guard. *)
Lemma click_button (c : Ctx.t) (item : Item.t) :
  restProps item !! "onClick" = None →
  click (button c item) = handleClick c item.
Proof.
  intros Hk. unfold click.
  rewrite hostDisabled_button, (button_own _ _ _ Hk), ownProps_onClick.
  unfold handleClick. by destruct (Js.truthy (isDisabled c item)).
Qed.

Lemma isSelected_spec (c : Ctx.t) (item : Item.t) :
  isSelected c item = true ↔ Item.value item = Ctx.selectedValue c.
Proof.
  unfold isSelected. rewrite bool_decide_eq_true. split; congruence.
Qed.

(** ** Activation *)

Lemma handleClick_enabled (p : Props.t) (item : Item.t) (st : HookState) :
  Js.truthy (isDisabled (contextValue p st) item) = false →
  handleClick (contextValue p st) item st =
  (tt,
   if isControlled p then st else {| uncontrolledValue := Item.value item |},
   ChangeRequested (Item.value item)
     :: forwarded (Props.onValueChange p) (Item.value item)).
Proof.
  intros Hen. unfold handleClick. rewrite Hen. cbn [negb Ctx.onValueChange contextValue].
  apply handleValueChange_run.
Qed.

Lemma handleClick_disabled (c : Ctx.t) (item : Item.t) (st : HookState) :
  Js.truthy (isDisabled c item) = true →
  handleClick c item st = (tt, st, []).
Proof. intros Hdis. unfold handleClick. by rewrite Hdis. Qed.

Lemma activate_enabled (p : Props.t) (item : Item.t) (st : HookState) :
  Js.truthy (isDisabled (contextValue p st) item) = false →
  restProps item !! "onClick" = None →
  activate p item st =
  (tt,
   if isControlled p then st else {| uncontrolledValue := Item.value item |},
   ChangeRequested (Item.value item)
     :: forwarded (Props.onValueChange p) (Item.value item)).
Proof.
  intros Hen Hk. unfold activate. rewrite (click_button _ _ Hk).
  by apply handleClick_enabled.
Qed.

Lemma activate_disabled (p : Props.t) (item : Item.t) (st : HookState) :
  Js.truthy (isDisabled (contextValue p st) item) = true →
  activate p item st = (tt, st, []).
Proof.
  intros Hdis. unfold activate, click. by rewrite hostDisabled_button, Hdis.
Qed.

Lemma isControlled_Some (p : Props.t) (v : string) :
  Props.value p = Some v → isControlled p = true.
Proof. unfold isControlled. by intros ->. Qed.

Lemma isControlled_None (p : Props.t) :
  Props.value p = None → isControlled p = false.
Proof. unfold isControlled. by intros ->. Qed.

(** ** Active segments *)

Lemma activeSegments_none (c : Ctx.t) (items : list Item.t) :
  (∀ i, i ∈ items → Item.value i ≠ Ctx.selectedValue c) →
  activeSegments c items = [].
Proof.
  unfold activeSegments. induction items as [|i items IH]; intros Hne; [done|].
  rewrite filter_cons_False.
  - apply IH. intros j Hj. apply Hne. by right.
  - rewrite isSelected_spec. apply Hne. by left.
Qed.

Lemma activeSegments_distinct (c : Ctx.t) (items : list Item.t) :
  NoDup (Item.value <$> items) → (List.length (activeSegments c items) ≤ 1)%nat.
Proof.
  unfold activeSegments. induction items as [|i items IH]; [simpl; lia|].
  rewrite fmap_cons, NoDup_cons. intros [Hi Hnd].
  destruct (decide (isSelected c i = true)) as [Hsel|Hsel].
  - rewrite filter_cons_True by done.
    fold (activeSegments c items). rewrite activeSegments_none; [simpl; lia|].
    intros j Hj Heq. apply Hi. apply isSelected_spec in Hsel.
    apply list_elem_of_fmap. exists j. split; [congruence|done].
  - rewrite filter_cons_False by done. by apply IH.
Qed.

(** ** Segments that report active *)

Lemma reportsActive_button (c : Ctx.t) (item : Item.t) :
  restProps item !! "aria-checked" = None →
  restProps item !! "data-state" = None →
  reportsActive (button c item) = isSelected c item.
Proof.
  intros Haria Hdata. unfold reportsActive.
  rewrite (button_own _ _ _ Haria), (button_own _ _ _ Hdata).
  rewrite ownProps_aria_checked, ownProps_data_state.
  by destruct (isSelected c item).
Qed.

Lemma reportingSegments_plain (c : Ctx.t) (items : list Item.t) :
  Forall (λ i, restProps i !! "aria-checked" = None
               ∧ restProps i !! "data-state" = None) items →
  reportingSegments c items = activeSegments c items.
Proof.
  unfold reportingSegments, activeSegments.
  induction 1 as [|i items [Haria Hdata] _ IH]; [done|].
  rewrite !filter_cons, IH, (reportsActive_button _ _ Haria Hdata).
  by destruct (decide (isSelected c i = true)).
Qed.

(** * The claims *)

(** C1 (as amended). Among rendered segments with pairwise distinct
    identifiers whose pass-through props set neither [aria-checked] nor
    [data-state], at most one reports active under any group state; a
    segment reports active exactly when its identifier equals the group's
    selected identifier, and when no identifier matches the selected one
    no segment reports active. *)
Theorem at_most_one_active_segment
    (p : Props.t) (st : HookState) (items : list Item.t) :
  NoDup (Item.value <$> items) →
  Forall (λ i, restProps i !! "aria-checked" = None
               ∧ restProps i !! "data-state" = None) items →
  (List.length (reportingSegments (contextValue p st) items) ≤ 1)%nat
  ∧ (∀ i, i ∈ items →
          reportsActive (button (contextValue p st) i) = true ↔
          Item.value i = selectedValue p st)
  ∧ ((∀ i, i ∈ items → Item.value i ≠ selectedValue p st) →
     reportingSegments (contextValue p st) items = []).
Proof.
  intros Hnd Hplain. rewrite (reportingSegments_plain _ _ Hplain).
  split; [by apply activeSegments_distinct|]. split.
  - intros i Hi. rewrite Forall_forall in Hplain.
    destruct (Hplain i Hi) as [Haria Hdata].
    rewrite (reportsActive_button _ _ Haria Hdata). apply isSelected_spec.
  - intros Hne. apply activeSegments_none. exact Hne.
Qed.

Lemma at_most_one_active_segment_witness :
  (List.length (reportingSegments (contextValue sizeGroup (mount sizeGroup))
                  [segment "small"; segment "medium"; segment "large"]) ≤ 1)%nat.
Proof.
  refine (proj1 (at_most_one_active_segment sizeGroup (mount sizeGroup)
                   [segment "small"; segment "medium"; segment "large"] _ _)).
  - apply (bool_decide_unpack _). vm_compute. exact I.
  - repeat constructor.
Defined.

(** C1 as stated fails twice over: two segments that share the selected
    identifier both report active, and so do segments with distinct
    identifiers that are passed an [aria-checked] of their own. *)
Lemma several_segments_report_active :
  ¬ (List.length (reportingSegments (contextValue sizeGroup (mount sizeGroup))
                    [segment "medium"; segment "medium"]) ≤ 1)%nat
  ∧ ¬ (List.length
         (reportingSegments (contextValue sizeGroup (mount sizeGroup))
            [pinnedOn "small"; segment "medium"; pinnedOn "large"]) ≤ 1)%nat.
Proof. split; vm_compute; lia. Qed.

(** C2 (as amended). In a controlled group, activating a non-disabled
    segment whose pass-through props carry no [onClick] leaves the local
    state as it was, the displayed selection stays the controlling value,
    and the change is requested and handed to the external notification
    function (when one is supplied) with the segment's identifier. *)
Theorem activate_controlled
    (p : Props.t) (st : HookState) (item : Item.t) (v : string) :
  Props.value p = Some v →
  Js.truthy (isDisabled (contextValue p st) item) = false →
  restProps item !! "onClick" = None →
  stateAfter (activate p item) st = st
  ∧ selectedValue p (stateAfter (activate p item) st) = v
  ∧ logOf (activate p item) st =
    ChangeRequested (Item.value item)
      :: forwarded (Props.onValueChange p) (Item.value item).
Proof.
  intros Hv Hen Hk. unfold stateAfter, logOf.
  rewrite (activate_enabled _ _ _ Hen Hk), (isControlled_Some _ _ Hv).
  cbn [fst snd]. unfold selectedValue. by rewrite Hv.
Qed.

Lemma activate_controlled_witness :
  stateAfter (activate periodGroup (segment "month")) (mount periodGroup)
  = mount periodGroup
  ∧ selectedValue periodGroup
      (stateAfter (activate periodGroup (segment "month")) (mount periodGroup))
    = "week"
  ∧ logOf (activate periodGroup (segment "month")) (mount periodGroup)
    = [ChangeRequested "month"; ExternalCall notifier "month"].
Proof.
  apply (activate_controlled periodGroup (mount periodGroup)
           (segment "month") "week"); reflexivity.
Defined.

(** C2 as stated fails: a segment that is given an [onClick] of its own
    never reaches the notification function. *)
Lemma controlled_tracked_not_notified :
  Props.value periodGroup = Some "week"
  ∧ Js.truthy (isDisabled (contextValue periodGroup (mount periodGroup))
                 (tracked "month")) = false
  ∧ logOf (activate periodGroup (tracked "month")) (mount periodGroup)
    = [ExternalClick tracker]
  ∧ ExternalCall notifier "month"
    ∉ logOf (activate periodGroup (tracked "month")) (mount periodGroup).
Proof.
  repeat split; try reflexivity.
  change (logOf (activate periodGroup (tracked "month")) (mount periodGroup))
    with [ExternalClick tracker].
  intros Hin. apply list_elem_of_singleton in Hin. discriminate Hin.
Qed.

(** C3 (as amended). In an uncontrolled group, activating a non-disabled
    segment whose pass-through props carry no [onClick] sets the local
    value to the segment's identifier, so that it is the selected value of
    the next render and the segment is the active one. *)
Theorem activate_uncontrolled
    (p : Props.t) (st : HookState) (item : Item.t) :
  Props.value p = None →
  Js.truthy (isDisabled (contextValue p st) item) = false →
  restProps item !! "onClick" = None →
  stateAfter (activate p item) st = {| uncontrolledValue := Item.value item |}
  ∧ selectedValue p (stateAfter (activate p item) st) = Item.value item
  ∧ isSelected (contextValue p (stateAfter (activate p item) st)) item = true.
Proof.
  intros Hv Hen Hk. unfold stateAfter.
  rewrite (activate_enabled _ _ _ Hen Hk), (isControlled_None _ Hv).
  cbn [fst snd]. split; [done|].
  assert (selectedValue p {| uncontrolledValue := Item.value item |}
          = Item.value item) as Hsel by (unfold selectedValue; by rewrite Hv).
  split; [done|]. by apply isSelected_spec.
Qed.

Lemma activate_uncontrolled_witness :
  stateAfter (activate sizeGroup (segment "large")) (mount sizeGroup)
  = {| uncontrolledValue := "large" |}
  ∧ selectedValue sizeGroup
      (stateAfter (activate sizeGroup (segment "large")) (mount sizeGroup))
    = "large"
  ∧ isSelected
      (contextValue sizeGroup
         (stateAfter (activate sizeGroup (segment "large")) (mount sizeGroup)))
      (segment "large") = true.
Proof.
  apply (activate_uncontrolled sizeGroup (mount sizeGroup) (segment "large"));
    reflexivity.
Defined.

(** C3 as stated fails: with an [onClick] of its own the segment keeps the
    group on the previous selection. *)
Lemma uncontrolled_tracked_not_selected :
  Props.value sizeGroup = None
  ∧ Js.truthy (isDisabled (contextValue sizeGroup (mount sizeGroup))
                 (tracked "large")) = false
  ∧ selectedValue sizeGroup
      (stateAfter (activate sizeGroup (tracked "large")) (mount sizeGroup))
    = "medium"
  ∧ isSelected
      (contextValue sizeGroup
         (stateAfter (activate sizeGroup (tracked "large")) (mount sizeGroup)))
      (tracked "large") = false.
Proof. repeat split; reflexivity. Qed.

(** C4. A click on a segment whose own disabled flag is set, or on any
    segment of a group whose disabled flag is set, changes nothing: the
    shared change function is not entered, the state is the same and no
    external function is called. This holds for the click on the rendered
    button and for [handleClick] itself. *)
Theorem disabled_never_changes
    (p : Props.t) (st : HookState) (item : Item.t) :
  Js.truthy (Item.disabled item) = true ∨ Js.truthy (Props.disabled p) = true →
  activate p item st = (tt, st, [])
  ∧ handleClick (contextValue p st) item st = (tt, st, []).
Proof.
  intros Hdis.
  assert (Js.truthy (isDisabled (contextValue p st) item) = true) as Heff.
  { rewrite truthy_isDisabled. cbn [Ctx.disabled contextValue].
    destruct Hdis as [-> | ->]; [done | by rewrite orb_true_r]. }
  split; [by apply activate_disabled | by apply handleClick_disabled].
Qed.

Lemma disabled_never_changes_witness :
  activate disabledGroup (tracked "large") (mount disabledGroup)
  = (tt, mount disabledGroup, [])
  ∧ handleClick (contextValue disabledGroup (mount disabledGroup))
      (tracked "large") (mount disabledGroup)
    = (tt, mount disabledGroup, []).
Proof.
  apply (disabled_never_changes disabledGroup (mount disabledGroup)
           (tracked "large")).
  right. reflexivity.
Defined.

(** C5. The only error of the component is the usage error of a segment
    rendered without a surrounding group: without a context the item
    fails with that error at once, every segment rendered by a group
    succeeds, and no other result of rendering a segment is an error. *)
Theorem usage_error_only_outside_group :
  (∀ item : Item.t,
     SegmentedButtonItem None item =
     inl (UsageError "SegmentedButtonItem must be used within SegmentedButton"))
  ∧ (∀ (p : Props.t) (st : HookState) (children : list Item.t),
       SegmentedButton p st children =
       (λ item, inr (button (contextValue p st) item)) <$> children)
  ∧ (∀ (context : option Ctx.t) (item : Item.t),
       SegmentedButtonItem context item =
       match context with
       | None =>
           inl (UsageError
                  "SegmentedButtonItem must be used within SegmentedButton")
       | Some c => inr (button c item)
       end).
Proof.
  split; [done|]. split.
  - intros p st children. unfold SegmentedButton.
    by apply list_fmap_ext.
  - by intros [c|] item.
Qed.

(** C6. On a change reported by a child, a group without a controlling
    value stores the reported identifier as its local value, which is then
    the selected value, and a group with a controlling value keeps its
    local value; in both cases the change is forwarded to the external
    notification function whenever there is one. *)
Theorem handleValueChange_updates_and_forwards
    (p : Props.t) (st : HookState) (newValue : string) :
  stateAfter (handleValueChange p newValue) st =
    match Props.value p with
    | None => {| uncontrolledValue := newValue |}
    | Some _ => st
    end
  ∧ selectedValue p (stateAfter (handleValueChange p newValue) st) =
    match Props.value p with
    | None => newValue
    | Some controlledValue => controlledValue
    end
  ∧ logOf (handleValueChange p newValue) st =
    ChangeRequested newValue ::
      match Props.onValueChange p with
      | Some f => [ExternalCall f newValue]
      | None => []
      end.
Proof.
  unfold stateAfter, logOf, selectedValue.
  rewrite handleValueChange_run. unfold isControlled.
  by destruct (Props.value p).
Qed.

(** C7 (as amended). A segment computes "active" as the equality of its
    identifier with the shared selected value and "effectively disabled"
    as the disjunction of its own flag and the group's flag. The rendered
    button always exposes the latter through its [disabled] attribute,
    whatever the pass-through props are; it exposes the former through
    [aria-checked] when the pass-through props do not set [aria-checked],
    and through [data-state] when they do not set [data-state]. *)
Theorem item_state_exposed (c : Ctx.t) (item : Item.t) :
  isSelected c item = bool_decide (Item.value item = Ctx.selectedValue c)
  ∧ Js.truthy (isDisabled c item) =
    Js.truthy (Item.disabled item) || Js.truthy (Ctx.disabled c)
  ∧ button c item !! "disabled" = Some (ofFlag (isDisabled c item))
  ∧ hostDisabled (button c item) = Js.truthy (isDisabled c item)
  ∧ (restProps item !! "aria-checked" = None →
     button c item !! "aria-checked" = Some (VBool (isSelected c item)))
  ∧ (restProps item !! "data-state" = None →
     button c item !! "data-state" =
     Some (VString (if isSelected c item then "active" else "inactive"))).
Proof.
  repeat split.
  - unfold isSelected. apply bool_decide_ext. split; congruence.
  - apply truthy_isDisabled.
  - apply button_disabled.
  - apply hostDisabled_button.
  - intros Haria. by rewrite (button_own _ _ _ Haria).
  - intros Hdata. by rewrite (button_own _ _ _ Hdata).
Qed.

Lemma item_state_exposed_witness :
  button (contextValue sizeGroup (mount sizeGroup)) (segment "medium")
    !! "aria-checked" = Some (VBool true)
  ∧ button (contextValue sizeGroup (mount sizeGroup)) (segment "medium")
    !! "data-state" = Some (VString "active")
  ∧ button (contextValue disabledGroup (mount disabledGroup))
      (pinnedOff "small") !! "disabled" = Some (VBool true).
Proof.
  split; [|split].
  - apply (item_state_exposed (contextValue sizeGroup (mount sizeGroup))
             (segment "medium")); reflexivity.
  - apply (item_state_exposed (contextValue sizeGroup (mount sizeGroup))
             (segment "medium")); reflexivity.
  - apply (item_state_exposed (contextValue disabledGroup (mount disabledGroup))
             (pinnedOff "small")).
Defined.

(** C7 as stated fails: the selected segment can be rendered with both
    indicators saying that it is not. *)
Lemma active_state_not_exposed :
  isSelected (contextValue sizeGroup (mount sizeGroup)) (pinnedOff "medium")
  = true
  ∧ button (contextValue sizeGroup (mount sizeGroup)) (pinnedOff "medium")
    !! "aria-checked" = Some (VBool false)
  ∧ button (contextValue sizeGroup (mount sizeGroup)) (pinnedOff "medium")
    !! "data-state" = Some (VString "inactive").
Proof. repeat split; reflexivity. Qed.

(** C8. An uncontrolled group built without a default value starts with
    the empty string selected, so no segment with a non-empty identifier
    is active on the first render. *)
Theorem initial_selection_empty (p : Props.t) :
  Props.value p = None →
  Props.defaultValue p = None →
  selectedValue p (mount p) = ""
  ∧ ∀ item : Item.t,
      Item.value item ≠ "" →
      isSelected (contextValue p (mount p)) item = false.
Proof.
  intros Hv Hd.
  assert (selectedValue p (mount p) = "") as Hsel.
  { unfold selectedValue, mount. by rewrite Hv, Hd. }
  split; [done|]. intros item Hne.
  apply not_true_is_false. rewrite isSelected_spec.
  cbn [Ctx.selectedValue contextValue]. congruence.
Qed.

Lemma initial_selection_empty_witness :
  selectedValue bareGroup (mount bareGroup) = ""
  ∧ isSelected (contextValue bareGroup (mount bareGroup)) (segment "small")
    = false.
Proof.
  destruct (initial_selection_empty bareGroup eq_refl eq_refl) as [Hsel Hnone].
  split; [exact Hsel|]. apply Hnone. discriminate.
Defined.

(** C9 (as amended). For a rendered segment whose pass-through props set
    neither [aria-checked] nor [data-state], the two indicators agree:
    [aria-checked] is true exactly when [data-state] is "active", and
    exactly when the segment's identifier is the shared selected value. *)
Theorem indicators_agree (c : Ctx.t) (item : Item.t) :
  restProps item !! "aria-checked" = None →
  restProps item !! "data-state" = None →
  (button c item !! "aria-checked" = Some (VBool true) ↔
   button c item !! "data-state" = Some (VString "active"))
  ∧ (button c item !! "aria-checked" = Some (VBool true) ↔
     Item.value item = Ctx.selectedValue c).
Proof.
  intros Haria Hdata.
  rewrite (button_own _ _ _ Haria), (button_own _ _ _ Hdata).
  rewrite ownProps_aria_checked, ownProps_data_state, <- isSelected_spec.
  destruct (isSelected c item); split; split; (done || discriminate).
Qed.

Lemma indicators_agree_witness :
  (button (contextValue periodGroup (mount periodGroup)) (segment "week")
     !! "aria-checked" = Some (VBool true) ↔
   button (contextValue periodGroup (mount periodGroup)) (segment "week")
     !! "data-state" = Some (VString "active"))
  ∧ (button (contextValue periodGroup (mount periodGroup)) (segment "week")
       !! "aria-checked" = Some (VBool true) ↔
     Item.value (segment "week")
     = Ctx.selectedValue (contextValue periodGroup (mount periodGroup))).
Proof.
  apply (indicators_agree (contextValue periodGroup (mount periodGroup))
           (segment "week")); reflexivity.
Defined.

(** C9 as stated fails: a pass-through [aria-checked] replaces the
    component's, while [data-state] still reads "active". *)
Lemma indicators_disagree :
  ¬ (button (contextValue periodGroup (mount periodGroup))
       (uncheckedAria "week") !! "aria-checked" = Some (VBool true) ↔
     button (contextValue periodGroup (mount periodGroup))
       (uncheckedAria "week") !! "data-state" = Some (VString "active")).
Proof.
  intros [_ Hback]. specialize (Hback eq_refl). vm_compute in Hback.
  discriminate Hback.
Qed.

(** C10 (as amended). In an uncontrolled group, activating the segment
    that is already selected, provided it is not disabled and its
    pass-through props carry no [onClick], leaves the selected value as
    it is and still requests the change and forwards it to the external
    notification function, when there is one, with the same identifier. *)
Theorem activate_selected_again
    (p : Props.t) (st : HookState) (item : Item.t) :
  Props.value p = None →
  selectedValue p st = Item.value item →
  Js.truthy (isDisabled (contextValue p st) item) = false →
  restProps item !! "onClick" = None →
  stateAfter (activate p item) st = st
  ∧ selectedValue p (stateAfter (activate p item) st) = selectedValue p st
  ∧ logOf (activate p item) st =
    ChangeRequested (Item.value item)
      :: forwarded (Props.onValueChange p) (Item.value item).
Proof.
  intros Hv Hsel Hen Hk. unfold stateAfter, logOf.
  rewrite (activate_enabled _ _ _ Hen Hk), (isControlled_None _ Hv).
  cbn [fst snd].
  assert ({| uncontrolledValue := Item.value item |} = st) as ->.
  { unfold selectedValue in Hsel. rewrite Hv in Hsel.
    destruct st as [u]. cbn in Hsel. by rewrite Hsel. }
  done.
Qed.

Lemma activate_selected_again_witness :
  stateAfter (activate sizeGroup (segment "medium")) (mount sizeGroup)
  = mount sizeGroup
  ∧ selectedValue sizeGroup
      (stateAfter (activate sizeGroup (segment "medium")) (mount sizeGroup))
    = selectedValue sizeGroup (mount sizeGroup)
  ∧ logOf (activate sizeGroup (segment "medium")) (mount sizeGroup)
    = [ChangeRequested "medium"; ExternalCall notifier "medium"].
Proof.
  apply (activate_selected_again sizeGroup (mount sizeGroup)
           (segment "medium")); reflexivity.
Defined.

(** C10 as stated fails: when the selected segment is disabled, or has an
    [onClick] of its own, activating it calls no notification function
    although one is present. *)
Lemma selected_again_not_notified :
  (Props.onValueChange disabledGroup = Some notifier
   ∧ isSelected (contextValue disabledGroup (mount disabledGroup))
       (segment "medium") = true
   ∧ logOf (activate disabledGroup (segment "medium")) (mount disabledGroup)
     = [])
  ∧ (Props.onValueChange sizeGroup = Some notifier
     ∧ isSelected (contextValue sizeGroup (mount sizeGroup))
         (tracked "medium") = true
     ∧ logOf (activate sizeGroup (tracked "medium")) (mount sizeGroup)
       = [ExternalClick tracker]).
Proof. repeat split; reflexivity. Qed.

(** * Further properties *)

(** ** Sessions of activations *)

Lemma isDisabled_enabledIn (p : Props.t) (st : HookState) (item : Item.t) :
  Js.truthy (isDisabled (contextValue p st) item) = negb (enabledIn p item).
Proof.
  rewrite truthy_isDisabled. unfold enabledIn. by rewrite negb_involutive.
Qed.

Lemma activate_step (p : Props.t) (item : Item.t) (st : HookState) :
  restProps item !! "onClick" = None →
  activate p item st =
  if enabledIn p item
  then (tt,
        if isControlled p then st
        else {| uncontrolledValue := Item.value item |},
        changeLog p item)
  else (tt, st, []).
Proof.
  intros Hk. destruct (enabledIn p item) eqn:Hen.
  - apply activate_enabled; [|done]. by rewrite isDisabled_enabledIn, Hen.
  - apply activate_disabled. by rewrite isDisabled_enabledIn, Hen.
Qed.

Lemma activateAll_cons (p : Props.t) (item : Item.t) (items : list Item.t)
    (st : HookState) :
  activateAll p (item :: items) st =
  let '(_, s1, l1) := activate p item st in
  let '(b, s2, l2) := activateAll p items s1 in
  (b, s2, (l1 ++ l2)%list).
Proof. reflexivity. Qed.

Lemma default_last_cons {A} (d x : A) (l : list A) :
  default d (last (x :: l)) = default x (last l).
Proof. rewrite last_cons. by destruct (last l). Qed.

Lemma activateAll_controlled_state
    (p : Props.t) (items : list Item.t) (st : HookState) (v : string) :
  Props.value p = Some v →
  Forall (λ i, restProps i !! "onClick" = None) items →
  stateAfter (activateAll p items) st = st.
Proof.
  intros Hv Hks. revert st. induction Hks as [|i items Hk _ IH]; intros st.
  - reflexivity.
  - specialize (IH st). unfold stateAfter in *. rewrite activateAll_cons.
    rewrite (activate_step _ _ _ Hk), (isControlled_Some _ _ Hv).
    destruct (enabledIn p i); destruct (activateAll p items st) as [[b s2] l2];
      exact IH.
Qed.

Lemma activateAll_uncontrolled_state
    (p : Props.t) (items : list Item.t) (st : HookState) :
  Props.value p = None →
  Forall (λ i, restProps i !! "onClick" = None) items →
  uncontrolledValue (stateAfter (activateAll p items) st) =
  default (uncontrolledValue st)
    (last (Item.value <$> filter (λ i, enabledIn p i = true) items)).
Proof.
  intros Hv Hks. revert st. induction Hks as [|i items Hk _ IH]; intros st.
  - reflexivity.
  - unfold stateAfter in *. rewrite activateAll_cons.
    rewrite (activate_step _ _ _ Hk), (isControlled_None _ Hv).
    destruct (enabledIn p i) eqn:Hen.
    + rewrite filter_cons_True by done.
      rewrite fmap_cons, default_last_cons.
      specialize (IH {| uncontrolledValue := Item.value i |}).
      destruct (activateAll p items _) as [[b s2] l2]. exact IH.
    + rewrite filter_cons_False by (rewrite Hen; discriminate).
      specialize (IH st).
      destruct (activateAll p items st) as [[b s2] l2]. exact IH.
Qed.

Lemma activateAll_log_run
    (p : Props.t) (items : list Item.t) (st : HookState) :
  Forall (λ i, restProps i !! "onClick" = None) items →
  logOf (activateAll p items) st =
  flat_map (changeLog p) (filter (λ i, enabledIn p i = true) items).
Proof.
  intros Hks. revert st. induction Hks as [|i items Hk _ IH]; intros st.
  - reflexivity.
  - unfold logOf in *. rewrite activateAll_cons, (activate_step _ _ _ Hk).
    destruct (enabledIn p i) eqn:Hen.
    + rewrite filter_cons_True by done. cbn [flat_map].
      match goal with
      | |- context [activateAll p items ?s] =>
          specialize (IH s); destruct (activateAll p items s) as [[b s2] l2]
      end.
      cbn in *. by rewrite IH.
    + rewrite filter_cons_False by (rewrite Hen; discriminate).
      specialize (IH st).
      destruct (activateAll p items st) as [[b s2] l2]. exact IH.
Qed.

Lemma activeSegments_only (c : Ctx.t) (items : list Item.t) (item : Item.t) :
  NoDup (Item.value <$> items) →
  item ∈ items →
  Ctx.selectedValue c = Item.value item →
  activeSegments c items = [item].
Proof.
  intros Hnd Hin Hsel. induction items as [|i items IH]; [by apply elem_of_nil in Hin|].
  rewrite fmap_cons, NoDup_cons in Hnd. destruct Hnd as [Hi Hnd].
  assert (∀ j, j ∈ items → Item.value j ≠ Item.value i) as Hfresh.
  { intros j Hj Heq. apply Hi. apply list_elem_of_fmap. by exists j. }
  unfold activeSegments. apply elem_of_cons in Hin as [-> | Hin].
  - rewrite filter_cons_True by (apply isSelected_spec; done).
    fold (activeSegments c items). rewrite activeSegments_none; [done|].
    intros j Hj. rewrite Hsel. by apply Hfresh.
  - rewrite filter_cons_False.
    + by apply IH.
    + rewrite isSelected_spec, Hsel. intros Heq. by apply (Hfresh item).
Qed.

(** X1. In an uncontrolled group, after any sequence of activations of
    segments that carry no [onClick] of their own, the selected value is
    the identifier of the last activated segment that was enabled, and the
    value selected before when there was none. *)
Theorem session_selects_last_enabled
    (p : Props.t) (items : list Item.t) (st : HookState) :
  Props.value p = None →
  Forall (λ i, restProps i !! "onClick" = None) items →
  selectedValue p (stateAfter (activateAll p items) st) =
  default (selectedValue p st)
    (last (Item.value <$> filter (λ i, enabledIn p i = true) items)).
Proof.
  intros Hv Hks. unfold selectedValue. rewrite Hv.
  by apply activateAll_uncontrolled_state.
Qed.

Lemma session_selects_last_enabled_witness :
  selectedValue sizeGroup
    (stateAfter
       (activateAll sizeGroup
          [segment "small"; segment "large";
           {| Item.value := "small"; Item.label := None;
              Item.disabled := Some true; Item.attrs := ∅ |}])
       (mount sizeGroup))
  = "large".
Proof.
  refine (eq_trans
            (session_selects_last_enabled sizeGroup _ (mount sizeGroup)
               eq_refl _) _).
  - repeat constructor.
  - reflexivity.
Defined.

(** X2. In a controlled group no sequence of activations of segments that
    carry no [onClick] of their own changes the local state, and the
    selected value stays the controlling value. *)
Theorem session_controlled_frame
    (p : Props.t) (items : list Item.t) (st : HookState) (v : string) :
  Props.value p = Some v →
  Forall (λ i, restProps i !! "onClick" = None) items →
  stateAfter (activateAll p items) st = st
  ∧ selectedValue p (stateAfter (activateAll p items) st) = v.
Proof.
  intros Hv Hks. rewrite (activateAll_controlled_state _ _ _ _ Hv Hks).
  split; [done|]. unfold selectedValue. by rewrite Hv.
Qed.

Lemma session_controlled_frame_witness :
  stateAfter
    (activateAll periodGroup [segment "day"; segment "month"; segment "year"])
    (mount periodGroup)
  = mount periodGroup
  ∧ selectedValue periodGroup
      (stateAfter
         (activateAll periodGroup
            [segment "day"; segment "month"; segment "year"])
         (mount periodGroup))
    = "week".
Proof.
  apply (session_controlled_frame periodGroup
           [segment "day"; segment "month"; segment "year"]
           (mount periodGroup) "week"); [reflexivity | repeat constructor].
Defined.

(** X3. Controlled or not, a sequence of activations of segments that
    carry no [onClick] of their own logs, in order, one change request per
    enabled activation, each followed by one call of the external
    notification function when there is one; activations of disabled
    segments log nothing. *)
Theorem session_log
    (p : Props.t) (items : list Item.t) (st : HookState) :
  Forall (λ i, restProps i !! "onClick" = None) items →
  logOf (activateAll p items) st =
  flat_map
    (λ i, ChangeRequested (Item.value i)
            :: match Props.onValueChange p with
               | Some f => [ExternalCall f (Item.value i)]
               | None => []
               end)
    (filter (λ i, enabledIn p i = true) items).
Proof. intros Hks. by rewrite activateAll_log_run. Qed.

Lemma session_log_witness :
  logOf
    (activateAll sizeGroup
       [segment "small";
        {| Item.value := "medium"; Item.label := None;
           Item.disabled := Some true; Item.attrs := ∅ |};
        segment "large"])
    (mount sizeGroup)
  = [ChangeRequested "small"; ExternalCall notifier "small";
     ChangeRequested "large"; ExternalCall notifier "large"].
Proof.
  refine (eq_trans (session_log sizeGroup _ (mount sizeGroup) _) _).
  - repeat constructor.
  - reflexivity.
Defined.

(** X4. In an uncontrolled group whose segments have pairwise distinct
    identifiers, activating an enabled segment that carries no [onClick]
    of its own makes it the one and only active segment of the next
    render. *)
Theorem selection_makes_exactly_one_active
    (p : Props.t) (st : HookState) (items : list Item.t) (item : Item.t) :
  NoDup (Item.value <$> items) →
  item ∈ items →
  Props.value p = None →
  enabledIn p item = true →
  restProps item !! "onClick" = None →
  activeSegments (contextValue p (stateAfter (activate p item) st)) items
  = [item].
Proof.
  intros Hnd Hin Hv Hen Hk. apply activeSegments_only; [done..|].
  unfold stateAfter. rewrite (activate_step _ _ _ Hk), Hen.
  rewrite (isControlled_None _ Hv). cbn. unfold selectedValue. by rewrite Hv.
Qed.

Lemma selection_makes_exactly_one_active_witness :
  activeSegments
    (contextValue sizeGroup
       (stateAfter (activate sizeGroup (segment "large")) (mount sizeGroup)))
    [segment "small"; segment "medium"; segment "large"]
  = [segment "large"].
Proof.
  apply (selection_makes_exactly_one_active sizeGroup (mount sizeGroup)
           [segment "small"; segment "medium"; segment "large"]
           (segment "large")).
  - apply (bool_decide_unpack _). vm_compute. exact I.
  - do 2 apply list_elem_of_further. apply list_elem_of_here.
  - reflexivity.
  - reflexivity.
  - reflexivity.
Defined.

(** ** The stories *)

Lemma storyItems_plain (item : Item.t) :
  item ∈ storyItems →
  Item.disabled item = None ∧ restProps item !! "onClick" = None.
Proof.
  unfold storyItems. intros Hin.
  repeat (apply elem_of_cons in Hin as [-> | Hin]; [by split|]).
  by apply elem_of_nil in Hin.
Qed.

Lemma storyClick_item (s : StoryState) (item : Item.t) :
  item ∈ storyItems →
  storyClick s item = {| selected := Item.value item; group := group s |}.
Proof.
  intros [Hdis Hk]%storyItems_plain. unfold storyClick.
  rewrite (activate_step _ _ _ Hk). unfold enabledIn. rewrite Hdis. cbn.
  reflexivity.
Qed.

Lemma storyClicks_run (s : StoryState) (clicks : list Item.t) :
  Forall (λ i, i ∈ storyItems) clicks →
  foldl storyClick s clicks =
  {| selected := default (selected s) (last (Item.value <$> clicks));
     group := group s |}.
Proof.
  intros Hin. revert s. induction Hin as [|i clicks Hi _ IH]; intros s.
  - by destruct s.
  - cbn [foldl]. rewrite IH, (storyClick_item _ _ Hi).
    by rewrite fmap_cons, default_last_cons.
Qed.

Lemma storyItems_enabled (p : Props.t) (clicks : list Item.t) :
  Props.disabled p = None →
  Forall (λ i, i ∈ storyItems) clicks →
  filter (λ i, enabledIn p i = true) clicks = clicks
  ∧ Forall (λ i, restProps i !! "onClick" = None) clicks.
Proof.
  intros Hp Hin. induction Hin as [|i clicks Hi _ [IHf IHk]]; [done|].
  apply storyItems_plain in Hi as [Hdis Hk]. split.
  - rewrite filter_cons_True; [by rewrite IHf|].
    unfold enabledIn. by rewrite Hdis, Hp.
  - by constructor.
Qed.

(** X5. In the [ControlledState] story, after any sequence of clicks on
    its segments the owner's [selected] is the identifier of the segment
    clicked last ("medium" before the first click), the group shows that
    value as its selection, and the group's own state cell is still the
    one it was mounted with. *)
Theorem controlled_story_follows_clicks (clicks : list Item.t) :
  Forall (λ i, i ∈ storyItems) clicks →
  selected (storySession clicks) =
    default "medium" (last (Item.value <$> clicks))
  ∧ selectedValue (controlledStory (selected (storySession clicks)))
      (group (storySession clicks)) =
    default "medium" (last (Item.value <$> clicks))
  ∧ group (storySession clicks) = mount (controlledStory "medium").
Proof.
  intros Hin. unfold storySession. by rewrite (storyClicks_run _ _ Hin).
Qed.

Lemma controlled_story_follows_clicks_witness :
  selected (storySession [labelled "large" "Large"; labelled "small" "Small"])
  = "small".
Proof.
  refine (eq_trans
            (proj1 (controlled_story_follows_clicks
                      [labelled "large" "Large"; labelled "small" "Small"] _))
            _).
  - repeat constructor.
  - reflexivity.
Defined.

(** X6. The controlled story and the uncontrolled [Default] story cannot
    be told apart by their selection: after the same clicks on their
    segments both groups show the same selected value. *)
Theorem controlled_story_matches_default (clicks : list Item.t) :
  Forall (λ i, i ∈ storyItems) clicks →
  selectedValue (controlledStory (selected (storySession clicks)))
    (group (storySession clicks))
  = selectedValue defaultStory
      (stateAfter (activateAll defaultStory clicks) (mount defaultStory)).
Proof.
  intros Hin. unfold storySession. rewrite (storyClicks_run _ _ Hin).
  destruct (storyItems_enabled defaultStory clicks eq_refl Hin) as [Hf Hk].
  unfold selectedValue at 2. cbn [Props.value defaultStory].
  rewrite (activateAll_uncontrolled_state defaultStory _ _ eq_refl Hk), Hf.
  reflexivity.
Qed.

Lemma controlled_story_matches_default_witness :
  selectedValue
    (controlledStory (selected (storySession [labelled "large" "Large"])))
    (group (storySession [labelled "large" "Large"]))
  = selectedValue defaultStory
      (stateAfter (activateAll defaultStory [labelled "large" "Large"])
         (mount defaultStory)).
Proof.
  apply (controlled_story_matches_default [labelled "large" "Large"]).
  repeat constructor.
Defined.

(** ** Props forwarded to the host button *)

(** X7. Every prop of a segment other than the five the component
    destructures and the two React keeps for itself ([key], [ref])
    reaches the host button as given, replacing what the component would
    set under that name; a name the segment does not pass keeps the
    component's own value. A [key] is never handed on. *)
Theorem passthrough_forwarded (c : Ctx.t) (item : Item.t) (k : string) :
  k ∉ destructured →
  k ∉ reserved →
  button c item !! k =
    match Item.attrs item !! k with
    | Some v => Some v
    | None => ownProps c item !! k
    end
  ∧ button c item !! "key" = None.
Proof.
  intros Hk Hr. split.
  - unfold button. rewrite lookup_union, (restProps_other _ _ Hk Hr).
    destruct (Item.attrs item !! k) as [v|]; [|by rewrite (left_id None _)].
    by destruct (ownProps c item !! k).
  - rewrite button_own; [reflexivity|].
    apply restProps_reserved. unfold reserved. set_solver.
Qed.

Lemma passthrough_forwarded_witness :
  button (contextValue periodGroup (mount periodGroup)) (uncheckedAria "week")
    !! "aria-checked" = Some (VBool false).
Proof.
  refine (eq_trans
            (proj1 (passthrough_forwarded
                      (contextValue periodGroup (mount periodGroup))
                      (uncheckedAria "week") "aria-checked" _ _)) _).
  - apply (bool_decide_unpack _). vm_compute. exact I.
  - apply (bool_decide_unpack _). vm_compute. exact I.
  - reflexivity.
Defined.

(** X8. The identifier and the label of a segment are consumed by the
    component: the host button receives neither a [value] nor a [label]
    prop, whatever the segment was given. *)
Theorem identifier_not_forwarded (c : Ctx.t) (item : Item.t) :
  button c item !! "value" = None ∧ button c item !! "label" = None.
Proof.
  split; (rewrite button_own; [reflexivity|]);
    apply restProps_destructured; unfold destructured; set_solver.
Qed.

(** ** The Storybook configuration *)

Lemma viteFinal_server (config : ViteConfig) (k : string) :
  (server (viteFinal config) ≫= (.!! k)) =
  if decide (k = "strictPort") then Some (JBool false)
  else if decide (k = "host") then Some (JBool true)
  else server config ≫= (.!! k).
Proof.
  cbn. repeat case_decide; subst.
  - by rewrite lookup_insert_eq.
  - by rewrite lookup_insert_ne, lookup_insert_eq.
  - rewrite !lookup_insert_ne by done.
    destruct (server config); [done|]. cbn. by rewrite lookup_empty.
Qed.

(** X9. Whatever the incoming configuration says, the configuration
    returned by [viteFinal] has server options, with [host] set to [true]
    and [strictPort] set to [false]. *)
Theorem viteFinal_forces_host_and_port (config : ViteConfig) :
  is_Some (server (viteFinal config))
  ∧ (server (viteFinal config) ≫= (.!! "host")) = Some (JBool true)
  ∧ (server (viteFinal config) ≫= (.!! "strictPort")) = Some (JBool false).
Proof.
  split; [by eexists|]. split; by rewrite viteFinal_server.
Qed.

(** X10. [viteFinal] leaves every other server option, and every field
    of the configuration other than [server], as it received them. *)
Theorem viteFinal_keeps_the_rest (config : ViteConfig) (k : string) :
  k ≠ "host" →
  k ≠ "strictPort" →
  (server (viteFinal config) ≫= (.!! k)) = (server config ≫= (.!! k))
  ∧ others (viteFinal config) = others config.
Proof.
  intros Hh Hs. split; [|done].
  rewrite viteFinal_server. by repeat case_decide.
Qed.

Lemma viteFinal_keeps_the_rest_witness :
  (server (viteFinal pinnedServer) ≫= (.!! "port")) = Some (JNum 6006)
  ∧ others (viteFinal pinnedServer) = others pinnedServer.
Proof.
  split.
  - refine (eq_trans
              (proj1 (viteFinal_keeps_the_rest pinnedServer "port" _ _)) _);
      [discriminate | discriminate | reflexivity].
  - reflexivity.
Defined.

(** X11. [viteFinal] is idempotent: applying it to its own result changes
    nothing. *)
Theorem viteFinal_idempotent (config : ViteConfig) :
  viteFinal (viteFinal config) = viteFinal config.
Proof.
  unfold viteFinal. cbn. do 2 f_equal. apply map_eq. intros k.
  destruct (decide (k = "strictPort")) as [->|];
    [by rewrite !lookup_insert_eq|].
  rewrite !(lookup_insert_ne _ "strictPort") by done.
  destruct (decide (k = "host")) as [->|]; [by rewrite !lookup_insert_eq|].
  rewrite !(lookup_insert_ne _ "host") by done.
  rewrite !(lookup_insert_ne _ "strictPort") by done.
  by rewrite !(lookup_insert_ne _ "host") by done.
Qed.
